(** * Shallow embedding of the plant simulation in [src/Plant-Game.tsx]

    JavaScript numbers are modelled as exact rationals [Q]; the constants
    [0.02], [0.002], [0.01] and [0.24] are the rationals they denote.
    The React component [App] is split along its independent effects:
    the moisture interval, the watering hold gesture, and the leaf
    health / spring logic of the scene effect. *)

From Stdlib Require Import QArith Qminmax Qround ZArith List Bool Arith Lia Lqa Permutation.
Import ListNotations.

(** ** Moisture: the [watering]-dependent interval (lines 70-90) *)
Module Moisture.

(** The callback of the 100ms interval installed by the effect; [rule]
    is the value of [watering] the effect closed over when it ran. *)
Definition water_tick (rule : bool) (w : Q) : Q :=
  if rule then Qmin 1 (w + (2 # 100)) else Qmax 0 (w - (2 # 1000)).

(** [waterLevel] state and [waterLevelRef] are written together by every
    tick; [interval_rule] is the mode of the one interval currently
    installed (the effect's cleanup clears the previous one). *)
Record mstate := mkM {
  waterLevel : Q;
  waterLevelRef : Q;
  watering : bool;
  interval_rule : bool
}.

(** [useState(1)], [useRef(1)], [useState(false)]; the effect runs on
    mount with [watering = false]. *)
Definition init : mstate := mkM 1 1 false false.

Inductive mevent := Tick | SetWatering (b : bool).

(** [setWatering b] re-renders; when the dependency changed the effect
    clears the old interval and installs one for the new value. *)
Definition m_step (e : mevent) (s : mstate) : mstate :=
  match e with
  | Tick =>
      let next := water_tick (interval_rule s) (waterLevel s) in
      mkM next next (watering s) (interval_rule s)
  | SetWatering b =>
      if Bool.eqb b (watering s) then s
      else mkM (waterLevel s) (waterLevelRef s) b b
  end.

Inductive reachable : mstate -> Prop :=
  | reach_init : reachable init
  | reach_step e s : reachable s -> reachable (m_step e s).

(** Moisture ticks with no watering input. *)
Definition ticks (n : nat) : mstate := Nat.iter n (m_step Tick) init.

End Moisture.

(** ** Leaf damage probability (lines 287-290) *)
Module Damage.

Definition getBadLeafChance (waterLevelRef : Q) : Q :=
  (1 # 100) + (1 - waterLevelRef) * (24 # 100).

End Damage.

(** ** Watering hold gesture (lines 93-122)

    A discrete-event model: the pointer handlers and the two timeouts
    act on the gesture state; pending timeouts are kept with their id,
    due time and callback. Timer ids start at 1 (they are truthy). *)
Module Gesture.

Inductive callback := HoldFire | SessionEnd.

Record timer := mkTimer { t_id : nat; t_due : nat; t_cb : callback }.

Record gstate := mkG {
  holding : bool;
  watering : bool;
  showWaterEffect : bool;
  holdTimeout : option nat;
  wateringTimeout : option nat;
  timers : list timer;
  next_id : nat;
  clock : nat
}.

Definition init : gstate := mkG false false false None None [] 1 0.

Definition set_holding b s :=
  mkG b (watering s) (showWaterEffect s) (holdTimeout s) (wateringTimeout s)
      (timers s) (next_id s) (clock s).
Definition set_watering b s :=
  mkG (holding s) b (showWaterEffect s) (holdTimeout s) (wateringTimeout s)
      (timers s) (next_id s) (clock s).
Definition set_show b s :=
  mkG (holding s) (watering s) b (holdTimeout s) (wateringTimeout s)
      (timers s) (next_id s) (clock s).
Definition set_holdTimeout o s :=
  mkG (holding s) (watering s) (showWaterEffect s) o (wateringTimeout s)
      (timers s) (next_id s) (clock s).
Definition set_wateringTimeout o s :=
  mkG (holding s) (watering s) (showWaterEffect s) (holdTimeout s) o
      (timers s) (next_id s) (clock s).
Definition set_timers ts s :=
  mkG (holding s) (watering s) (showWaterEffect s) (holdTimeout s)
      (wateringTimeout s) ts (next_id s) (clock s).
Definition set_clock t s :=
  mkG (holding s) (watering s) (showWaterEffect s) (holdTimeout s)
      (wateringTimeout s) (timers s) (next_id s) t.

(** [setTimeout(cb, delay)]: returns the fresh id. *)
Definition setTimeout (cb : callback) (delay : nat) (s : gstate) : nat * gstate :=
  let id := next_id s in
  (id, mkG (holding s) (watering s) (showWaterEffect s) (holdTimeout s)
           (wateringTimeout s) (timers s ++ [mkTimer id (clock s + delay) cb])
           (S id) (clock s)).

(** [if (ref.current) clearTimeout(ref.current)]; clearing a timer that
    already fired does nothing. *)
Definition clearTimeout (o : option nat) (s : gstate) : gstate :=
  match o with
  | Some id => set_timers (filter (fun tm => negb (Nat.eqb (t_id tm) id)) (timers s)) s
  | None => s
  end.

Definition handlePlantAreaPointerDown (s : gstate) : gstate :=
  let s := clearTimeout (wateringTimeout s) s in
  let s := set_holding true s in
  let (id, s) := setTimeout HoldFire 1000 s in
  set_holdTimeout (Some id) s.

(** The handlers read [watering] as rendered, i.e. its current value. *)
Definition handlePlantAreaPointerUp (s : gstate) : gstate :=
  let s := set_holding false s in
  let s := clearTimeout (holdTimeout s) s in
  let s := clearTimeout (wateringTimeout s) s in
  if watering s then set_show false (set_watering false s) else s.

Definition handlePlantAreaPointerLeave (s : gstate) : gstate :=
  let s := set_holding false s in
  let s := clearTimeout (holdTimeout s) s in
  let s := clearTimeout (wateringTimeout s) s in
  if watering s then set_show false (set_watering false s) else s.

Definition run_callback (cb : callback) (s : gstate) : gstate :=
  match cb with
  | HoldFire =>
      let s := set_show true (set_watering true s) in
      let (id, s) := setTimeout SessionEnd 1200 s in
      set_wateringTimeout (Some id) s
  | SessionEnd => set_show false (set_watering false s)
  end.

Inductive pevent := Down | Up | Leave.

Definition handle (e : pevent) : gstate -> gstate :=
  match e with
  | Down => handlePlantAreaPointerDown
  | Up => handlePlantAreaPointerUp
  | Leave => handlePlantAreaPointerLeave
  end.

(** The pending timer that fires first: least due time, then the one set
    first. *)
Fixpoint earliest (ts : list timer) : option timer :=
  match ts with
  | [] => None
  | tm :: rest =>
      match earliest rest with
      | Some tm' => if Nat.ltb (t_due tm') (t_due tm) then Some tm' else Some tm
      | None => Some tm
      end
  end.

Definition fire (tm : timer) (s : gstate) : gstate :=
  let s := set_clock (t_due tm) s in
  let s := set_timers (filter (fun x => negb (Nat.eqb (t_id x) (t_id tm))) (timers s)) s in
  run_callback (t_cb tm) s.

(** Runs a schedule of timed pointer events (sorted by time) together
    with the timers; returns every state entered, with its time. A timer
    due at the same time as a pointer event fires first. *)
Fixpoint run (fuel : nat) (s : gstate) (inputs : list (nat * pevent))
  : list (nat * gstate) * gstate :=
  match fuel with
  | O => ([], s)
  | S f =>
      match earliest (timers s), inputs with
      | None, [] => ([], s)
      | Some tm, [] =>
          let s' := fire tm s in
          let (tr, fin) := run f s' [] in ((t_due tm, s') :: tr, fin)
      | None, (t, e) :: rest =>
          let s' := handle e (set_clock t s) in
          let (tr, fin) := run f s' rest in ((t, s') :: tr, fin)
      | Some tm, (t, e) :: rest =>
          if Nat.leb (t_due tm) t then
            let s' := fire tm s in
            let (tr, fin) := run f s' inputs in ((t_due tm, s') :: tr, fin)
          else
            let s' := handle e (set_clock t s) in
            let (tr, fin) := run f s' rest in ((t, s') :: tr, fin)
      end
  end.

Definition trace (inputs : list (nat * pevent)) : list (nat * gstate) :=
  (0%nat, init) :: fst (run 100 init inputs).

(** The schedule is exhausted: no timer is left pending at the end. *)
Definition quiescent (inputs : list (nat * pevent)) : bool :=
  match timers (snd (run 100 init inputs)) with [] => true | _ => false end.

(** The [WateringActive] values along a trace. *)
Definition watering_trace (inputs : list (nat * pevent)) : list (nat * bool) :=
  map (fun p => (fst p, watering (snd p))) (trace inputs).

(** [WateringActive] at time [t]: the value in the last state entered at
    or before [t]. *)
Fixpoint watering_at (tr : list (nat * bool)) (t : nat) (cur : bool) : bool :=
  match tr with
  | [] => cur
  | (t', w) :: rest => if Nat.leb t' t then watering_at rest t w else cur
  end.

Definition watering_during (inputs : list (nat * pevent)) (t : nat) : bool :=
  watering_at (watering_trace inputs) t false.

End Gesture.

(** ** Leaves: springs, bad-leaf interval, pruning, growth (lines 11-19,
    280-356)

    [badLeaves] is a JS [Set<number>]: a duplicate-free list in insertion
    order. A spring is the value [spring.scale.get()] returns, the target
    last passed to [api.start] and its config; the physics that moves the
    value toward the target belongs to react-spring and is not modelled. *)
Module Leaves.

Inductive config := SpringCfg (tension friction : Z) | DurationCfg (ms : Z).

Record spring := mkSpring { value : Q; target : Q; cfg : config }.

Definition default_cfg : config := SpringCfg 180 18.

(** [leafRefs.current]: 6 side leaves and the top leaf. *)
Definition leafCount : nat := 7.

Definition set_has (i : nat) (st : list nat) : bool := existsb (Nat.eqb i) st.
Definition set_add (i : nat) (st : list nat) : list nat :=
  if set_has i st then st else st ++ [i].
Definition set_delete (i : nat) (st : list nat) : list nat :=
  filter (fun j => negb (Nat.eqb j i)) st.

(** [useSprings(7, i => ({ scale: 1, config: {tension: 180, friction: 18} }))] *)
Definition useSprings_init : list spring :=
  repeat (mkSpring 1 1 default_cfg) 7.

(** [api.start(idx => ...)]: an index mapped to [{}] is left alone; a
    started animation keeps the current value and takes the new target. *)
Definition api_start (f : nat -> option (Q * config)) (sps : list spring) : list spring :=
  map (fun p =>
         match f (snd p) with
         | Some (tg, c) => mkSpring (value (fst p)) tg c
         | None => fst p
         end)
      (combine sps (seq 0 (length sps))).

(** The mount effect's [api.start(i => ({ scale: 1, config: ... }))]. *)
Definition mount_start (sps : list spring) : list spring :=
  api_start (fun _ => Some (1, default_cfg)) sps.

(** [candidates]: indices of [leafRefs.current] not in [badLeaves]. *)
Definition candidates (bad : list nat) : list nat :=
  filter (fun i => negb (set_has i bad)) (seq 0 leafCount).

(** One run of the 1000ms bad-leaf interval with the two draws
    [r1], [r2] of [Math.random()]; [None] is a thrown TypeError
    ([candidates[k]] undefined). *)
Definition badLeafTick (waterLevelRef r1 r2 : Q) (bad : list nat) : option (list nat) :=
  let chance := Damage.getBadLeafChance waterLevelRef in
  if negb (Qle_bool chance r1) then
    let cands := candidates bad in
    if Nat.ltb 0 (length cands) then
      let k := Qfloor (r2 * inject_Z (Z.of_nat (length cands))) in
      if Z.ltb k 0 then None
      else match nth_error cands (Z.to_nat k) with
           | Some badIndex => Some (set_add badIndex bad)
           | None => None
           end
    else Some bad
  else Some bad.

(** Successive ticks, each with the water level it reads and its draws. *)
Fixpoint badLeafTicks (draws : list (Q * Q * Q)) (bad : list nat) : option (list nat) :=
  match draws with
  | [] => Some bad
  | (w, r1, r2) :: rest =>
      match badLeafTick w r1 r2 bad with
      | Some bad' => badLeafTicks rest bad'
      | None => None
      end
  end.

(** Scene state: the bad set, the springs, the pending 600ms regrow
    timeouts (due time, leaf) and the clock. *)
Record lstate := mkL {
  badLeaves : list nat;
  springs : list spring;
  pending : list (nat * nat);
  now : nat
}.

(** [onClick] once the ray pick resolved leaf [i]. *)
Definition onClick (i : nat) (s : lstate) : lstate :=
  if set_has i (badLeaves s) then
    mkL (badLeaves s)
        (api_start (fun idx => if Nat.eqb idx i then Some (0, default_cfg) else None)
                   (springs s))
        (pending s ++ [(now s + 600, i)]%nat)
        (now s)
  else s.

(** The 600ms timeout callback of a prune of leaf [i]. *)
Definition regrow (i : nat) (s : lstate) : lstate :=
  mkL (set_delete i (badLeaves s))
      (api_start (fun idx => if Nat.eqb idx i then Some (1, DurationCfg 22000) else None)
                 (springs s))
      (pending s)
      (now s).

(** Fires the first pending timeout, removing it from the queue. *)
Definition fire_first (s : lstate) : lstate :=
  match pending s with
  | [] => s
  | (due, i) :: rest => regrow i (mkL (badLeaves s) (springs s) rest due)
  end.

(** Number of prune sequences of leaf [i] in flight. *)
Definition in_flight (i : nat) (s : lstate) : nat :=
  length (filter (fun p => Nat.eqb (snd p) i) (pending s)).

(** The growth aggregation of [animate]: [total] over the leaves of
    [leafRefs.current] whose spring exists and that are not bad, divided
    by [count = 7]. *)
Definition growthLevel (sps : list spring) (bad : list nat) : Q :=
  let total :=
    fold_left (fun total i =>
                 match nth_error sps i with
                 | Some sp => if negb (set_has i bad) then total + value sp else total
                 | None => total
                 end)
              (seq 0 leafCount) 0 in
  total / inject_Z 7.

(** The aggregation as the spec words it: the sum of [LeafScale] over the
    leaves not in the unhealthy set, over the fixed leaf count 7. *)
Fixpoint healthy_sum (scales : list Q) (bad : list nat) (i n : nat) : Q :=
  match n with
  | O => 0
  | S n' =>
      (if set_has i bad then 0 else nth i scales 0) + healthy_sum scales bad (S i) n'
  end.

Definition growthLevel_spec (scales : list Q) (bad : list nat) : Q :=
  healthy_sum scales bad 0 7 / 7.

(** The clock advances to [t] (no pending timeout due before [t]). *)
Definition advance (t : nat) (s : lstate) : lstate :=
  mkL (badLeaves s) (springs s) (pending s) t.

(** Target and easing of leaf [i]'s spring. *)
Definition spring_target (i : nat) (sps : list spring) : option (Q * config) :=
  option_map (fun sp => (target sp, cfg sp)) (nth_error sps i).

(** The state of one leaf when the scene is set up: the bad set of the
    example, the springs at mount, no timeout pending. *)
Definition scene (bad : list nat) : lstate := mkL bad (mount_start useSprings_init) [] 0.

End Leaves.

(** ** Reachable leaf states

    The scene effect's bad-leaf interval (with [Math.random()] in [0, 1)
    for the index draw), clicks, the prune timeouts, and react-spring
    moving the spring values (any values, same number of springs). *)
Module LeafRun.
Import Leaves.

Inductive lstep : lstate -> lstate -> Prop :=
  | ls_damage s w r1 r2 bad' :
      0 <= r2 -> r2 < 1 ->
      badLeafTick w r1 r2 (badLeaves s) = Some bad' ->
      lstep s (mkL bad' (springs s) (pending s) (now s))
  | ls_click s i : lstep s (onClick i s)
  | ls_fire s : lstep s (fire_first s)
  | ls_animate s sps :
      length sps = length (springs s) ->
      lstep s (mkL (badLeaves s) sps (pending s) (now s)).

Inductive lreach : lstate -> Prop :=
  | lreach_init : lreach (scene [])
  | lreach_step s s' : lreach s -> lstep s s' -> lreach s'.

End LeafRun.

(** ** Growth history sampler (lines 58-67) *)
Module History.

(** [[...growthHistoryRef.current.slice(-29), growthLevelRef.current]] *)
Definition history_push (h : list Q) (g : Q) : list Q :=
  skipn (length h - 29) h ++ [g].

(** The history after the interval sampled [samples], oldest first. *)
Definition history_after (samples : list Q) : list Q :=
  fold_left history_push samples [].

(** The last [k] elements of a list, in order. *)
Definition lastn {A} (k : nat) (l : list A) : list A := skipn (length l - k) l.

End History.

(** ** Day clock (lines 42-55) and [DayBar] (its bar width) *)
Module Day.

Definition duration : Z := 60 * 1000.

(** [(elapsed % duration) / duration], [elapsed] in whole milliseconds;
    JavaScript's [%] keeps the sign of the dividend, as [Z.rem] does. *)
Definition dayProgress (elapsed : Z) : Q :=
  inject_Z (Z.rem elapsed duration) / inject_Z duration.

(** [Math.max(2, progress * 100)], the bar width in percent. *)
Definition dayBarWidth (progress : Q) : Q := Qmax 2 (progress * 100).

End Day.

(** ** Displayed percentages: [WaterBar], [GrowthBar], chart data *)
Module Display.

(** [Math.round]: the nearest integer, halves rounded up. *)
Definition Math_round (x : Q) : Z := Qfloor (x + (1 # 2)).

(** [Math.round(level * 100)], the label of [WaterBar] and [GrowthBar]. *)
Definition percent_label (level : Q) : Z := Math_round (level * 100).

(** [growthHistory.map(v => Math.round(v * 100))], the chart's data. *)
Definition chart_data (h : list Q) : list Z := map (fun v => Math_round (v * 100)) h.

End Display.

(** ** [SlidingGraph] drag handling (lines 491-561)

    Each handler is a closure over the state of the render that created
    it ([snap]); its setters write the live state. *)
Module Panel.

Record panel := mkP { open_ : bool; dragStartY : option Q; panelY : Q }.

Definition init : panel := mkP false None 0.

Definition set_panelY v p := mkP (open_ p) (dragStartY p) v.

Definition onMouseDown (clientY : Q) (p : panel) : panel :=
  mkP (open_ p) (Some clientY) (panelY p).

Definition onMouseMove (snap : panel) (clientY : Q) (p : panel) : panel :=
  match dragStartY snap with
  | Some start =>
      let delta := clientY - start in
      if negb (open_ snap) then set_panelY (Qmax 0 (Qmin 200 delta)) p
      else set_panelY (200 + Qmax (-200) (Qmin 0 delta)) p
  | None => p
  end.

Definition onMouseUp (snap : panel) (p : panel) : panel :=
  match dragStartY snap with
  | Some _ =>
      let o := if negb (open_ snap)
               then (if Qle_bool (panelY snap) 100 then open_ p else true)
               else (if Qle_bool 100 (panelY snap) then open_ p else false) in
      mkP o None 0
  | None => p
  end.

Definition onTouchStart (touches : list Q) (p : panel) : panel :=
  match touches with
  | [y] => onMouseDown y p
  | _ => p
  end.

Definition onTouchMove (snap : panel) (touches : list Q) (p : panel) : panel :=
  match dragStartY snap, touches with
  | Some _, [y] => onMouseMove snap y p
  | _, _ => p
  end.

Definition onTouchEnd := onMouseUp.

(** [const translateY = open ? 0 + panelY : -180 + panelY] *)
Definition translateY (p : panel) : Q :=
  if open_ p then 0 + panelY p else -180 + panelY p.

Inductive pstep : panel -> panel -> Prop :=
  | ps_down y p : pstep p (onMouseDown y p)
  | ps_move snap y p : pstep p (onMouseMove snap y p)
  | ps_up snap p : pstep p (onMouseUp snap p)
  | ps_tstart ts p : pstep p (onTouchStart ts p)
  | ps_tmove snap ts p : pstep p (onTouchMove snap ts p)
  | ps_tend snap p : pstep p (onTouchEnd snap p).

Inductive preach : panel -> Prop :=
  | preach_init : preach init
  | preach_step p p' : preach p -> pstep p p' -> preach p'.

End Panel.

(** ** Reachable gesture states: pointer events at any time, and any
    pending timeout firing. *)
Module GestureRun.
Import Gesture.

Inductive greach : gstate -> Prop :=
  | greach_init : greach init
  | greach_event s t e : greach s -> greach (handle e (set_clock t s))
  | greach_fire s tm : greach s -> In tm (timers s) -> greach (fire tm s).

(** The pending timers left by [clearTimeout o]. *)
Definition drop (o : option nat) (ts : list timer) : list timer :=
  match o with
  | Some id => filter (fun tm => negb (Nat.eqb (t_id tm) id)) ts
  | None => ts
  end.

(** The invariant of the gesture state: the effect flag follows
    [watering]; timer ids are below [next_id]; the id recorded in
    [wateringTimeout] is below [next_id] and names only a session timer. *)
Definition ginv (s : gstate) : Prop :=
  showWaterEffect s = watering s /\
  (forall tm, In tm (timers s) -> (t_id tm < next_id s)%nat) /\
  (forall w, wateringTimeout s = Some w ->
     (w < next_id s)%nat /\
     forall tm, In tm (timers s) -> t_id tm = w -> t_cb tm = SessionEnd).

End GestureRun.

(** ** Properties *)



Module MoistureFacts.
Import Moisture.

Lemma reachable_rule_installed s : reachable s -> interval_rule s = watering s.
Proof.
  induction 1 as [|e s _ IH]; [reflexivity|].
  destruct e as [|b]; simpl; [exact IH|].
  destruct (Bool.eqb b (watering s)); simpl; auto.
Qed.

(** C1: every moisture tick applies exactly the rule selected by
    [WateringActive]: [min(1, w + 0.02)] while watering, otherwise
    [max(0, w - 0.002)]. *)
Theorem moisture_tick_rule s :
  reachable s ->
  waterLevel (m_step Tick s) =
    (if watering s then Qmin 1 (waterLevel s + (2 # 100))
     else Qmax 0 (waterLevel s - (2 # 1000))) /\
  waterLevelRef (m_step Tick s) = waterLevel (m_step Tick s).
Proof.
  intros H. simpl. unfold water_tick.
  rewrite (reachable_rule_installed s H). split; reflexivity.
Qed.

Lemma moisture_tick_rule_witness :
  reachable (m_step (SetWatering true) init) /\
  waterLevel (m_step Tick (m_step (SetWatering true) init)) =
    (if watering (m_step (SetWatering true) init)
     then Qmin 1 (waterLevel (m_step (SetWatering true) init) + (2 # 100))
     else Qmax 0 (waterLevel (m_step (SetWatering true) init) - (2 # 1000))) /\
  waterLevelRef (m_step Tick (m_step (SetWatering true) init)) =
    waterLevel (m_step Tick (m_step (SetWatering true) init)).
Proof.
  assert (H : reachable (m_step (SetWatering true) init))
    by (apply reach_step; apply reach_init).
  split; [exact H|]. exact (moisture_tick_rule _ H).
Defined.


Lemma ticks_flags k : watering (ticks k) = false /\ interval_rule (ticks k) = false.
Proof.
  induction k as [|k IH]; [split; reflexivity|].
  unfold ticks in *. rewrite Nat.iter_succ. exact IH.
Qed.

Lemma ticks_succ k :
  waterLevel (ticks (S k)) = Qmax 0 (waterLevel (ticks k) - (2 # 1000)).
Proof.
  unfold ticks at 1. rewrite Nat.iter_succ. fold (ticks k).
  simpl. unfold water_tick. rewrite (proj2 (ticks_flags k)). reflexivity.
Qed.

Lemma nat_Q_succ k : inject_Z (Z.of_nat (S k)) == inject_Z (Z.of_nat k) + 1.
Proof. rewrite Nat2Z.inj_succ, <- Z.add_1_r, inject_Z_plus. reflexivity. Qed.

Lemma nat_Q_le k n : (k <= n)%nat -> inject_Z (Z.of_nat k) <= inject_Z (Z.of_nat n).
Proof. intros H. rewrite <- Zle_Qle. lia. Qed.

Lemma ticks_water_le k :
  (k <= 500)%nat -> waterLevel (ticks k) == 1 - inject_Z (Z.of_nat k) * (1 # 500).
Proof.
  induction k as [|k IH]; intros Hk.
  - reflexivity.
  - rewrite ticks_succ.
    assert (Hw : waterLevel (ticks k) == 1 - inject_Z (Z.of_nat k) * (1 # 500)) by (apply IH; lia).
    assert (Hb : inject_Z (Z.of_nat k) <= inject_Z (Z.of_nat 499)) by (apply nat_Q_le; lia).
    change (inject_Z (Z.of_nat 499)) with (499 # 1) in Hb.
    rewrite Q.max_r by lra.
    rewrite nat_Q_succ. lra.
Qed.

Lemma ticks_water_ge k : (500 <= k)%nat -> waterLevel (ticks k) == 0.
Proof.
  induction k as [|k IH]; intros Hk; [lia|].
  destruct (Nat.eq_dec k 499) as [->|Hne].
  - rewrite (ticks_water_le 500) by lia. reflexivity.
  - rewrite ticks_succ.
    assert (Hw : waterLevel (ticks k) == 0) by (apply IH; lia).
    rewrite Q.max_l by lra. reflexivity.
Qed.

(** C10 (counterexample): with no watering input the level does not keep
    strictly decreasing: tick 501 leaves it at 0, where tick 500 put it. *)
Lemma water_not_strictly_decreasing_forever :
  ~ (waterLevel (ticks 501) < waterLevel (ticks 500)).
Proof.
  rewrite (ticks_water_ge 501), (ticks_water_ge 500) by lia. lra.
Qed.

(** C10 (amended): [WaterLevel] starts at 1; with no watering input each of
    the first 500 moisture ticks lowers it by exactly 0.002 (strictly), it
    is 0 after tick 500 and stays 0 on every later tick. *)
Theorem water_initial_full_then_drains :
  waterLevel init = 1 /\ waterLevelRef init = 1 /\
  (forall k, (k < 500)%nat ->
     waterLevel (ticks (S k)) == waterLevel (ticks k) - (2 # 1000) /\
     waterLevel (ticks (S k)) < waterLevel (ticks k)) /\
  (forall k, (500 <= k)%nat -> waterLevel (ticks k) == 0).
Proof.
  split; [reflexivity|]. split; [reflexivity|]. split.
  - intros k Hk.
    rewrite (ticks_water_le (S k)), (ticks_water_le k) by lia.
    rewrite nat_Q_succ. split; lra.
  - exact ticks_water_ge.
Qed.

End MoistureFacts.

Module DamageFacts.
Import Damage.

(** C3: the per-tick damage probability is [0.01 + (1 - w) * 0.24]: it is
    0.25 at [w = 0], 0.01 at [w = 1], and the affine, strictly decreasing
    function [0.25 - 0.24 w] of the water level. *)
Theorem bad_leaf_chance_affine :
  (forall w, getBadLeafChance w == (1 # 100) + (1 - w) * (24 # 100)) /\
  getBadLeafChance 0 == 25 # 100 /\
  getBadLeafChance 1 == 1 # 100 /\
  (forall w, getBadLeafChance w == (25 # 100) - (24 # 100) * w) /\
  (forall w1 w2, w1 < w2 -> getBadLeafChance w2 < getBadLeafChance w1).
Proof.
  unfold getBadLeafChance.
  split; [intros; reflexivity|].
  split; [reflexivity|]. split; [reflexivity|].
  split; intros; lra.
Qed.

End DamageFacts.

Module GestureFacts.
Import Gesture.

Lemma trace_release_900 :
  watering_trace [(0, Down); (900, Up)]%nat = [(0, false); (0, false); (900, false)]%nat.
Proof. vm_compute. reflexivity. Qed.

Lemma trace_release_1100 :
  watering_trace [(0, Down); (1100, Up)]%nat
  = [(0, false); (0, false); (1000, true); (1100, false)]%nat.
Proof. vm_compute. reflexivity. Qed.

Lemma trace_held :
  watering_trace [(0, Down)]%nat = [(0, false); (0, false); (1000, true); (2200, false)]%nat.
Proof. vm_compute. reflexivity. Qed.

Ltac leb_cases :=
  repeat match goal with
         | |- context [Nat.leb ?a ?b] =>
             let E := fresh "E" in
             destruct (Nat.leb a b) eqn:E;
             [apply Nat.leb_le in E | apply Nat.leb_gt in E]
         | |- context [Nat.ltb ?a ?b] =>
             let E := fresh "E" in
             destruct (Nat.ltb a b) eqn:E;
             [apply Nat.ltb_lt in E | apply Nat.ltb_ge in E]
         end; cbn -[Nat.leb Nat.ltb]; try reflexivity; try lia.

(** C9: pointer-down held 900ms then released never enters Watering and
    leaves no timer pending; held and released at 1100ms it is Watering
    exactly from 1000ms; held without release or leave it is Watering
    exactly from 1000ms until the session timer ends it at 2200ms. *)
Theorem hold_gesture_timing :
  (forall t, watering_during [(0, Down); (900, Up)]%nat t = false) /\
  quiescent [(0, Down); (900, Up)]%nat = true /\
  (forall t, watering_during [(0, Down); (1100, Up)]%nat t
             = (Nat.leb 1000 t && Nat.ltb t 1100)%bool) /\
  (forall t, watering_during [(0, Down)]%nat t
             = (Nat.leb 1000 t && Nat.ltb t 2200)%bool) /\
  quiescent [(0, Down)]%nat = true.
Proof.
  unfold watering_during.
  split; [|split; [vm_compute; reflexivity|split; [|split; [|vm_compute; reflexivity]]]];
    intros t.
  - rewrite trace_release_900. cbn -[Nat.leb Nat.ltb]. leb_cases.
  - rewrite trace_release_1100. cbn -[Nat.leb Nat.ltb]. leb_cases.
  - rewrite trace_held. cbn -[Nat.leb Nat.ltb]. leb_cases.
Qed.

End GestureFacts.

Module LeavesFacts.
Import Leaves.

Lemma nth_error_combine_seq {A} (l : list A) k i :
  nth_error (combine l (seq k (length l))) i
  = option_map (fun x => (x, k + i)%nat) (nth_error l i).
Proof.
  revert k i. induction l as [|x l IH]; intros k i; [destruct i; reflexivity|].
  destruct i as [|i]; simpl; [rewrite Nat.add_0_r; reflexivity|].
  rewrite IH. destruct (nth_error l i); simpl; [rewrite Nat.add_succ_r|]; reflexivity.
Qed.

Lemma nth_error_api_start f sps i :
  nth_error (api_start f sps) i
  = option_map (fun sp => match f i with
                          | Some (tg, c) => mkSpring (value sp) tg c
                          | None => sp
                          end) (nth_error sps i).
Proof.
  unfold api_start. rewrite nth_error_map, nth_error_combine_seq.
  destruct (nth_error sps i); reflexivity.
Qed.

Lemma length_api_start f sps : length (api_start f sps) = length sps.
Proof.
  unfold api_start. rewrite length_map, length_combine, length_seq. lia.
Qed.

Lemma growth_fold sps bad n i acc :
  fold_left (fun total j =>
               match nth_error sps j with
               | Some sp => if negb (set_has j bad) then total + value sp else total
               | None => total
               end) (seq i n) acc
  == acc + healthy_sum (map value sps) bad i n.
Proof.
  revert i acc. induction n as [|n IH]; intros i acc; simpl; [ring|].
  rewrite IH.
  destruct (nth_error sps i) as [sp|] eqn:E.
  - rewrite (nth_error_nth _ _ _ (map_nth_error value _ _ E)).
    destruct (set_has i bad); simpl; ring.
  - rewrite nth_overflow by (rewrite length_map; apply nth_error_None; exact E).
    destruct (set_has i bad); ring.
Qed.

(** C4: each frame, [GrowthLevel] is the sum of the scales of the leaves
    not in the unhealthy set divided by the fixed count 7, whatever the
    scales and the unhealthy set. *)
Theorem growth_level_fixed_denominator sps bad :
  growthLevel sps bad == growthLevel_spec (map value sps) bad.
Proof.
  unfold growthLevel, growthLevel_spec, leafCount.
  rewrite growth_fold. change (inject_Z 7) with 7. rewrite Qplus_0_l. reflexivity.
Qed.

(** C6 (code): the springs are created at scale 1 and the mount effect
    starts every one of them toward 1: each starts its animation from 1,
    not from 0. *)
Theorem mount_springs_start_at_one :
  useSprings_init = repeat (mkSpring 1 1 default_cfg) 7 /\
  mount_start useSprings_init = repeat (mkSpring 1 1 default_cfg) 7 /\
  Forall (fun sp => value sp = 1) (mount_start useSprings_init).
Proof.
  split; [reflexivity|]. split; [reflexivity|].
  repeat constructor.
Qed.

Lemma candidates_all_bad bad :
  (forall i, (i < 7)%nat -> set_has i bad = true) -> candidates bad = [].
Proof.
  intros H. unfold candidates, leafCount. simpl.
  rewrite !H by lia. reflexivity.
Qed.

(** C7: when all 7 leaves are unhealthy, any number of bad-leaf ticks, for
    any water levels and any random draws, leave the unhealthy set
    unchanged and never throw. *)
Theorem all_bad_absorbing bad draws :
  (forall i, (i < 7)%nat -> set_has i bad = true) ->
  badLeafTicks draws bad = Some bad.
Proof.
  intros H. induction draws as [|[[w r1] r2] rest IH]; [reflexivity|].
  simpl. unfold badLeafTick. rewrite (candidates_all_bad bad H). simpl.
  destruct (negb (Qle_bool _ r1)); exact IH.
Qed.

Lemma all_bad_absorbing_witness :
  (forall i, (i < 7)%nat -> set_has i [0; 1; 2; 3; 4; 5; 6]%nat = true) /\
  badLeafTicks [(0, 0, 0); (0, 1 # 2, 9 # 10)] [0; 1; 2; 3; 4; 5; 6]%nat
  = Some [0; 1; 2; 3; 4; 5; 6]%nat.
Proof.
  assert (H : forall i, (i < 7)%nat -> set_has i [0; 1; 2; 3; 4; 5; 6]%nat = true).
  { intros i Hi. do 7 (destruct i as [|i]; [reflexivity|]). lia. }
  split; [exact H|]. exact (all_bad_absorbing _ _ H).
Defined.

End LeavesFacts.

Module PruneFacts.
Import Leaves LeavesFacts.

Lemma set_has_delete i st : set_has i (set_delete i st) = false.
Proof.
  unfold set_has, set_delete. induction st as [|j st IH]; [reflexivity|].
  simpl. destruct (Nat.eqb j i) eqn:E; simpl; [exact IH|].
  rewrite Nat.eqb_sym, E. exact IH.
Qed.

(** C5 (counterexample): right after the pick of unhealthy leaf 0 the leaf
    is still in the unhealthy set; it is not made healthy immediately. *)
Lemma prune_not_immediately_healthy :
  set_has 0 (badLeaves (onClick 0 (scene [0]%nat))) = true.
Proof. reflexivity. Qed.

(** C5 (amended): a pick of unhealthy leaf [i] immediately drives its
    scale target to 0 with the default spring (tension 180, friction 18)
    and schedules the regrow 600ms later, leaving the leaf unhealthy; when
    that timeout runs, the leaf leaves the unhealthy set and its scale is
    animated to 1 with the fixed 22000ms duration. *)
Theorem prune_sequence i s :
  set_has i (badLeaves s) = true -> (i < length (springs s))%nat ->
  badLeaves (onClick i s) = badLeaves s /\
  spring_target i (springs (onClick i s)) = Some (0, SpringCfg 180 18) /\
  pending (onClick i s) = pending s ++ [(now s + 600, i)%nat] /\
  (forall s', (i < length (springs s'))%nat ->
     set_has i (badLeaves (regrow i s')) = false /\
     spring_target i (springs (regrow i s')) = Some (1, DurationCfg 22000)).
Proof.
  intros Hbad Hlen. unfold onClick. rewrite Hbad. simpl.
  split; [reflexivity|]. split.
  { unfold spring_target. rewrite nth_error_api_start, Nat.eqb_refl.
    destruct (nth_error (springs s) i) eqn:E; [reflexivity|].
    apply nth_error_None in E. lia. }
  split; [reflexivity|].
  intros s' Hlen'. split; [apply set_has_delete|].
  unfold spring_target, regrow. simpl. rewrite nth_error_api_start, Nat.eqb_refl.
  destruct (nth_error (springs s') i) eqn:E; [reflexivity|].
  apply nth_error_None in E. lia.
Qed.

Lemma prune_sequence_witness :
  set_has 0 (badLeaves (scene [0]%nat)) = true /\
  (0 < length (springs (scene [0]%nat)))%nat /\
  spring_target 0 (springs (onClick 0 (scene [0]%nat))) = Some (0, SpringCfg 180 18).
Proof.
  assert (H1 : set_has 0 (badLeaves (scene [0]%nat)) = true) by reflexivity.
  assert (H2 : (0 < length (springs (scene [0]%nat)))%nat) by (vm_compute; lia).
  split; [exact H1|]. split; [exact H2|].
  exact (proj1 (proj2 (prune_sequence 0 _ H1 H2))).
Defined.

(** C8 (counterexample): picking unhealthy leaf 0 twice, at 0ms and at
    100ms, puts two prune sequences of leaf 0 in flight. *)
Lemma two_prunes_in_flight :
  in_flight 0 (onClick 0 (advance 100 (onClick 0 (scene [0]%nat)))) = 2%nat.
Proof. reflexivity. Qed.

(** C8 (amended): a pick of leaf [i] starts a new prune sequence exactly
    when [i] is in the unhealthy set, whether or not one is already in
    flight, and it leaves the unhealthy set unchanged, so a further pick
    during the 600ms delay starts a further sequence. *)
Theorem pick_starts_sequence_iff_unhealthy i s :
  in_flight i (onClick i s)
  = (in_flight i s + (if set_has i (badLeaves s) then 1 else 0))%nat /\
  badLeaves (onClick i s) = badLeaves s.
Proof.
  unfold onClick, in_flight.
  destruct (set_has i (badLeaves s)); simpl; [|split; [lia|reflexivity]].
  rewrite filter_app, length_app. simpl. rewrite Nat.eqb_refl. simpl.
  split; reflexivity.
Qed.

End PruneFacts.

Module HistoryFacts.
Import History.

Lemma history_push_lastn (xs : list Q) x :
  history_push (lastn 30 xs) x = lastn 30 (xs ++ [x]).
Proof.
  unfold history_push, lastn.
  rewrite length_skipn, skipn_skipn, length_app. simpl.
  rewrite skipn_app. replace (length xs + 1 - 30 - length xs)%nat with 0%nat by lia.
  simpl. f_equal. f_equal. lia.
Qed.

(** The history sampler keeps a sliding window: after any sequence of
    samples it holds exactly the last 30 of them (all of them while there
    are fewer), oldest first, so it never holds more than 30. *)
Theorem history_sliding_window samples :
  history_after samples = lastn 30 samples /\
  length (history_after samples) = Nat.min (length samples) 30.
Proof.
  assert (H : history_after samples = lastn 30 samples).
  { unfold history_after. rewrite <- (rev_involutive samples).
    induction (rev samples) as [|x r IH]; [reflexivity|].
    simpl. rewrite fold_left_app, IH. simpl. apply history_push_lastn. }
  split; [exact H|]. rewrite H. unfold lastn. rewrite length_skipn. lia.
Qed.

End HistoryFacts.

Module DayFacts.
Import Day.

Lemma inject_Z_bounds a lo hi :
  (lo <= a <= hi)%Z -> inject_Z lo <= inject_Z a /\ inject_Z a <= inject_Z hi.
Proof. intros [H1 H2]. rewrite <- !Zle_Qle. lia. Qed.

Lemma rem_nonneg e : (0 <= e)%Z -> (0 <= Z.rem e duration < duration)%Z.
Proof. intros H. apply Z.rem_bound_pos; [exact H|reflexivity]. Qed.

(** For a non-negative elapsed time the day progress lies in [0, 1), is
    periodic with period 60000ms, and strictly increases between two times
    of the same 60s cycle; the [DayBar] width then lies in [2, 100). *)
Theorem day_progress_cycle e :
  (0 <= e)%Z ->
  0 <= dayProgress e /\ dayProgress e < 1 /\
  dayProgress (e + duration) == dayProgress e /\
  2 <= Day.dayBarWidth (dayProgress e) /\ Day.dayBarWidth (dayProgress e) < 100 /\
  (forall e', (e < e')%Z -> (e / duration = e' / duration)%Z ->
              dayProgress e < dayProgress e').
Proof.
  intros He. unfold dayProgress.
  pose proof (rem_nonneg e He) as Hr.
  unfold duration in *.
  destruct (inject_Z_bounds (Z.rem e (60 * 1000)) 0 59999 ltac:(lia)) as [B1 B2].
  change (inject_Z 0) with 0 in B1. change (inject_Z 59999) with (59999 # 1) in B2.
  unfold Qdiv. change (/ inject_Z (60 * 1000)) with (1 # 60000).
  assert (Hp : Z.rem (e + 60 * 1000) (60 * 1000) = Z.rem e (60 * 1000)).
  { rewrite !Z.rem_mod_nonneg by lia.
    rewrite <- (Z.mul_1_l (60 * 1000)) at 1. rewrite Z.mod_add by lia. reflexivity. }
  split; [lra|]. split; [lra|]. split; [rewrite Hp; reflexivity|].
  unfold Day.dayBarWidth.
  split; [apply Q.le_max_l|]. split.
  { destruct (Q.max_spec 2 (inject_Z (Z.rem e (60 * 1000)) * (1 # 60000) * 100))
      as [[_ ->]|[_ ->]]; lra. }
  intros e' Hlt Hq.
  pose proof (Z.div_mod e (60 * 1000) ltac:(lia)) as D1.
  pose proof (Z.div_mod e' (60 * 1000) ltac:(lia)) as D2.
  assert (Hlt' : (Z.rem e (60 * 1000) < Z.rem e' (60 * 1000))%Z).
  { rewrite !Z.rem_mod_nonneg by lia. lia. }
  assert (Hq' : inject_Z (Z.rem e (60 * 1000)) < inject_Z (Z.rem e' (60 * 1000)))
    by (rewrite <- Zlt_Qlt; exact Hlt').
  lra.
Qed.

(** Before the start time (a clock set back, negative elapsed time) the
    progress is never positive: it lies in (-1, 0]. *)
Theorem day_progress_negative e :
  (e < 0)%Z -> -1 < dayProgress e /\ dayProgress e <= 0.
Proof.
  intros He. unfold dayProgress.
  assert (Hr : (Z.rem e duration = - Z.rem (- e) duration)%Z).
  { rewrite <- Z.rem_opp_l by (unfold duration; lia). rewrite Z.opp_involutive. reflexivity. }
  pose proof (rem_nonneg (- e) ltac:(lia)) as Hb.
  rewrite Hr. unfold duration in *.
  destruct (inject_Z_bounds (- Z.rem (- e) (60 * 1000)) (-59999) 0 ltac:(lia)) as [B1 B2].
  change (inject_Z 0) with 0 in B2. change (inject_Z (-59999)) with ((-59999) # 1) in B1.
  unfold Qdiv. change (/ inject_Z (60 * 1000)) with (1 # 60000).
  split; lra.
Qed.

Lemma day_progress_cycle_witness :
  (0 <= 90000)%Z /\ dayProgress 90000 < 1.
Proof.
  split; [lia|]. exact (proj1 (proj2 (day_progress_cycle 90000 ltac:(lia)))).
Defined.

Lemma day_progress_negative_witness :
  (-5 < 0)%Z /\ -1 < dayProgress (-5).
Proof.
  split; [lia|]. exact (proj1 (day_progress_negative (-5) ltac:(lia))).
Defined.

End DayFacts.

Module MoistureRuns.
Import Moisture.

Lemma tick_keeps_flags s :
  watering (m_step Tick s) = watering s /\ interval_rule (m_step Tick s) = interval_rule s.
Proof. split; reflexivity. Qed.

Lemma water_range_inv s :
  reachable s -> 0 <= waterLevel s /\ waterLevel s <= 1 /\ waterLevelRef s = waterLevel s.
Proof.
  induction 1 as [|e s _ [H0 [H1 Href]]]; [simpl; split; [lra|split; [lra|reflexivity]]|].
  destruct e as [|b]; simpl.
  - unfold water_tick. destruct (interval_rule s).
    + split; [|split; [|reflexivity]];
        destruct (Q.min_spec 1 (waterLevel s + (2 # 100))) as [[Ha Hm]|[Ha Hm]];
        rewrite Hm; lra.
    + split; [|split; [|reflexivity]];
        destruct (Q.max_spec 0 (waterLevel s - (2 # 1000))) as [[Ha Hm]|[Ha Hm]];
        rewrite Hm; lra.
  - destruct (Bool.eqb b (watering s)); simpl; auto.
Qed.

(** In every reachable moisture state the water level lies in [0, 1] and
    [waterLevelRef] holds the same value as the [waterLevel] state. *)
Theorem water_level_range s :
  reachable s -> 0 <= waterLevel s /\ waterLevel s <= 1 /\ waterLevelRef s = waterLevel s.
Proof. exact (water_range_inv s). Qed.

Lemma water_level_range_witness :
  reachable (m_step Tick init) /\
  0 <= waterLevel (m_step Tick init) /\ waterLevel (m_step Tick init) <= 1 /\
  waterLevelRef (m_step Tick init) = waterLevel (m_step Tick init).
Proof.
  assert (H : reachable (m_step Tick init)) by (apply reach_step; apply reach_init).
  split; [exact H|]. exact (water_level_range _ H).
Defined.

Lemma iter_flags k s :
  watering (Nat.iter k (m_step Tick) s) = watering s /\
  interval_rule (Nat.iter k (m_step Tick) s) = interval_rule s.
Proof.
  induction k as [|k IH]; [split; reflexivity|].
  rewrite Nat.iter_succ. exact IH.
Qed.

Lemma iter_succ_water k s :
  waterLevel (Nat.iter (S k) (m_step Tick) s)
  = water_tick (interval_rule s) (waterLevel (Nat.iter k (m_step Tick) s)).
Proof. rewrite Nat.iter_succ. simpl. rewrite (proj2 (iter_flags k s)). reflexivity. Qed.

(** From a reachable state, [k] consecutive ticks while watering give
    [min(1, w + 0.02 k)] and [k] consecutive ticks while not watering give
    [max(0, w - 0.002 k)]: in particular 50 watering ticks fill the pot
    from any level and 500 dry ticks empty it from any level. *)
Theorem water_run_closed_form s k :
  reachable s ->
  waterLevel (Nat.iter k (m_step Tick) s)
  == (if watering s then Qmin 1 (waterLevel s + inject_Z (Z.of_nat k) * (2 # 100))
      else Qmax 0 (waterLevel s - inject_Z (Z.of_nat k) * (2 # 1000))).
Proof.
  intros Hr.
  destruct (water_range_inv s Hr) as [H0 [H1 _]].
  pose proof (MoistureFacts.reachable_rule_installed s Hr) as Hrule.
  induction k as [|k IH].
  - change (Nat.iter 0 (m_step Tick) s) with s. change (inject_Z (Z.of_nat 0)) with 0. destruct (watering s).
    + rewrite Q.min_r by lra. lra.
    + rewrite Q.max_r by lra. lra.
  - rewrite iter_succ_water, Hrule.
    unfold water_tick. destruct (watering s); rewrite MoistureFacts.nat_Q_succ.
    + rewrite IH.
      destruct (Q.min_spec 1 (waterLevel s + inject_Z (Z.of_nat k) * (2 # 100)))
        as [[Ha Hm]|[Ha Hm]]; rewrite Hm.
      * rewrite Q.min_l by lra. rewrite Q.min_l by lra. reflexivity.
      * apply Q.min_compat; [reflexivity|ring].
    + rewrite IH.
      destruct (Q.max_spec 0 (waterLevel s - inject_Z (Z.of_nat k) * (2 # 1000)))
        as [[Ha Hm]|[Ha Hm]]; rewrite Hm.
      * apply Q.max_compat; [reflexivity|ring].
      * rewrite Q.max_l by lra. rewrite Q.max_l by lra. reflexivity.
Qed.

Lemma water_run_closed_form_witness :
  reachable init /\
  waterLevel (Nat.iter 3 (m_step Tick) init)
  == (if watering init then Qmin 1 (waterLevel init + inject_Z (Z.of_nat 3) * (2 # 100))
      else Qmax 0 (waterLevel init - inject_Z (Z.of_nat 3) * (2 # 1000))).
Proof. split; [apply reach_init|]. exact (water_run_closed_form init 3 reach_init). Defined.

End MoistureRuns.

Module DisplayFacts.
Import Display.

Lemma round_percent_bounds v :
  0 <= v -> v <= 1 -> (0 <= Math_round (v * 100) <= 100)%Z.
Proof.
  intros H0 H1. unfold Math_round. split.
  - apply Z.le_trans with (Qfloor 0); [vm_compute; discriminate|].
    apply Qfloor_resp_le. lra.
  - apply Z.le_trans with (Qfloor (201 # 2)); [|vm_compute; discriminate].
    apply Qfloor_resp_le. lra.
Qed.

(** The percentage shown by [WaterBar] stays within 0..100 in every
    reachable moisture state, and reads 100 at start. *)
Theorem water_label_range s :
  Moisture.reachable s -> (0 <= percent_label (Moisture.waterLevel s) <= 100)%Z.
Proof.
  intros H. destruct (MoistureRuns.water_range_inv s H) as [H0 [H1 _]].
  apply round_percent_bounds; assumption.
Qed.

Lemma water_label_range_witness :
  Moisture.reachable Moisture.init /\
  (0 <= percent_label (Moisture.waterLevel Moisture.init) <= 100)%Z /\
  percent_label (Moisture.waterLevel Moisture.init) = 100%Z.
Proof.
  split; [apply Moisture.reach_init|].
  split; [exact (water_label_range _ Moisture.reach_init)|reflexivity].
Defined.

(** The chart receives one point per history sample, and every point lies
    within 0..100 when the samples lie in [0, 1]. *)
Theorem chart_data_range h :
  Forall (fun v => 0 <= v /\ v <= 1) h ->
  length (chart_data h) = length h /\
  Forall (fun z => (0 <= z <= 100)%Z) (chart_data h).
Proof.
  intros H. unfold chart_data. split; [apply length_map|].
  induction H as [|v h [H0 H1] _ IH]; constructor; [|exact IH].
  apply round_percent_bounds; assumption.
Qed.

Lemma chart_data_range_witness :
  Forall (fun v => 0 <= v /\ v <= 1) [0; 1 # 2; 5 # 7] /\
  length (chart_data [0; 1 # 2; 5 # 7]) = 3%nat /\
  Forall (fun z => (0 <= z <= 100)%Z) (chart_data [0; 1 # 2; 5 # 7]).
Proof.
  assert (H : Forall (fun v => 0 <= v /\ v <= 1) [0; 1 # 2; 5 # 7]).
  { repeat constructor; unfold Qle; simpl; lia. }
  split; [exact H|]. exact (chart_data_range _ H).
Defined.

End DisplayFacts.

Module PanelFacts.
Import Panel.

(** Whatever render's handlers run (a handler may close over a stale
    state), the drag offset [panelY] stays in [0, 200], so the panel's
    [translateY] stays in [-180, 20] while closed and in [0, 200] while
    open. *)
Theorem panel_offset_range p :
  preach p ->
  0 <= panelY p /\ panelY p <= 200 /\
  (if open_ p then 0 <= translateY p /\ translateY p <= 200
   else -180 <= translateY p /\ translateY p <= 20).
Proof.
  assert (Hinv : forall r, preach r -> 0 <= panelY r /\ panelY r <= 200).
  { induction 1 as [|r r' _ [H0 H1] Hs]; [simpl; lra|].
    assert (Hmove : forall snap y q, 0 <= panelY q -> panelY q <= 200 ->
              0 <= panelY (onMouseMove snap y q) /\ panelY (onMouseMove snap y q) <= 200).
    { intros snap y q Q0 Q1. unfold onMouseMove.
      destruct (dragStartY snap) as [st|]; [|lra].
      destruct (negb (open_ snap)); simpl.
      - destruct (Q.min_spec 200 (y - st)) as [[A B]|[A B]]; rewrite B;
          [destruct (Q.max_spec 0 200) as [[C D]|[C D]]
          |destruct (Q.max_spec 0 (y - st)) as [[C D]|[C D]]]; rewrite D; lra.
      - destruct (Q.min_spec 0 (y - st)) as [[A B]|[A B]]; rewrite B;
          [destruct (Q.max_spec (-200) 0) as [[C D]|[C D]]
          |destruct (Q.max_spec (-200) (y - st)) as [[C D]|[C D]]]; rewrite D; lra. }
    assert (Hup : forall snap q, 0 <= panelY q -> panelY q <= 200 ->
              0 <= panelY (onMouseUp snap q) /\ panelY (onMouseUp snap q) <= 200).
    { intros snap q Q0 Q1. unfold onMouseUp.
      destruct (dragStartY snap); simpl; lra. }
    destruct Hs as [y q|snap y q|snap q|ts q|snap ts q|snap q].
    - simpl. lra.
    - apply Hmove; assumption.
    - apply Hup; assumption.
    - unfold onTouchStart. destruct ts as [|y [|]]; simpl; lra.
    - unfold onTouchMove. destruct (dragStartY snap); [|lra].
      destruct ts as [|y [|]]; [lra| apply Hmove; assumption | lra].
    - apply Hup; assumption. }
  intros Hp. destruct (Hinv p Hp) as [H0 H1].
  split; [exact H0|]. split; [exact H1|].
  unfold translateY. destruct (open_ p); lra.
Qed.

Lemma panel_offset_range_witness :
  preach (onMouseMove (onMouseDown 10 init) 500 (onMouseDown 10 init)) /\
  panelY (onMouseMove (onMouseDown 10 init) 500 (onMouseDown 10 init)) <= 200.
Proof.
  assert (H : preach (onMouseMove (onMouseDown 10 init) 500 (onMouseDown 10 init))).
  { eapply preach_step; [eapply preach_step; [apply preach_init|apply ps_down]|apply ps_move]. }
  split; [exact H|]. exact (proj1 (proj2 (panel_offset_range _ H))).
Defined.

End PanelFacts.

Module LeafRunFacts.
Import Leaves LeafRun.

Lemma set_has_In i st : set_has i st = true <-> In i st.
Proof.
  unfold set_has. rewrite existsb_exists. split.
  - intros [x [Hx E]]. apply Nat.eqb_eq in E. subst. exact Hx.
  - intros H. exists i. split; [exact H|apply Nat.eqb_refl].
Qed.


Lemma In_candidates j bad : In j (candidates bad) -> (j < 7)%nat /\ set_has j bad = false.
Proof.
  unfold candidates, leafCount. rewrite filter_In, in_seq, negb_true_iff.
  intros [H1 H2]. split; [lia|exact H2].
Qed.

Lemma bad_leaf_tick_cases w r1 r2 bad :
  0 <= r2 -> r2 < 1 ->
  exists bad', badLeafTick w r1 r2 bad = Some bad' /\
    (bad' = bad \/
     exists j, (j < 7)%nat /\ set_has j bad = false /\ bad' = bad ++ [j]).
Proof.
  intros H0 H1. unfold badLeafTick.
  destruct (negb (Qle_bool _ r1)); [|eexists; split; [reflexivity|left; reflexivity]].
  destruct (Nat.ltb 0 (length (candidates bad))) eqn:Hlen;
    [|eexists; split; [reflexivity|left; reflexivity]].
  apply Nat.ltb_lt in Hlen.
  set (n := length (candidates bad)) in *.
  set (k := Qfloor (r2 * inject_Z (Z.of_nat n))).
  assert (Hn : 1 <= inject_Z (Z.of_nat n)) by (rewrite <- (Zle_Qle 1); lia).
  assert (Hk0 : (0 <= k)%Z).
  { apply Z.le_trans with (Qfloor 0); [vm_compute; discriminate|].
    apply Qfloor_resp_le. apply Qmult_le_0_compat; lra. }
  assert (Hk1 : (k < Z.of_nat n)%Z).
  { rewrite Zlt_Qlt. apply Qle_lt_trans with (r2 * inject_Z (Z.of_nat n)).
    - apply Qfloor_le.
    - rewrite <- (Qmult_1_l (inject_Z (Z.of_nat n))) at 2.
      apply Qmult_lt_compat_r; lra. }
  assert (Hltb : Z.ltb k 0 = false) by (apply Z.ltb_ge; exact Hk0).
  rewrite Hltb.
  destruct (nth_error (candidates bad) (Z.to_nat k)) as [j|] eqn:Hj.
  - eexists; split; [reflexivity|].
    apply nth_error_In in Hj. destruct (In_candidates j bad Hj) as [Hj7 Hjb].
    right. exists j. split; [exact Hj7|]. split; [exact Hjb|].
    unfold set_add. rewrite Hjb. reflexivity.
  - apply nth_error_None in Hj. fold n in Hj. lia.
Qed.

(** With draws of [Math.random()] for the index ([0 <= r2 < 1]) the
    bad-leaf tick never throws: it either leaves the unhealthy set as it is
    (no damage drawn, or no healthy leaf left) or appends one leaf index
    below 7 that was healthy. *)
Theorem bad_leaf_tick_total w r1 r2 bad :
  0 <= r2 -> r2 < 1 ->
  exists bad', badLeafTick w r1 r2 bad = Some bad' /\
    (bad' = bad \/
     exists j, (j < 7)%nat /\ set_has j bad = false /\ bad' = bad ++ [j]).
Proof. exact (bad_leaf_tick_cases w r1 r2 bad). Qed.

Lemma bad_leaf_tick_total_witness :
  0 <= 1 # 2 /\ (1 # 2) < 1 /\
  exists bad', badLeafTick 0 0 (1 # 2) [0]%nat = Some bad' /\
    (bad' = [0]%nat \/
     exists j, (j < 7)%nat /\ set_has j [0]%nat = false /\ bad' = [0]%nat ++ [j]).
Proof.
  assert (A : 0 <= 1 # 2) by (unfold Qle; simpl; lia).
  assert (B : (1 # 2) < 1) by (unfold Qlt; simpl; lia).
  split; [exact A|]. split; [exact B|]. exact (bad_leaf_tick_total 0 0 _ [0]%nat A B).
Defined.

Lemma leaf_inv_step s s' :
  NoDup (badLeaves s) /\ Forall (fun i => (i < 7)%nat) (badLeaves s) /\
  length (springs s) = 7%nat ->
  lstep s s' ->
  NoDup (badLeaves s') /\ Forall (fun i => (i < 7)%nat) (badLeaves s') /\
  length (springs s') = 7%nat.
Proof.
  intros [Hnd [Hlt Hlen]] Hs. destruct Hs as [s w r1 r2 bad' H0 H1 Ht|s i|s|s sps Hl]; simpl.
  - destruct (bad_leaf_tick_cases w r1 r2 (badLeaves s) H0 H1) as [b [Hb [->|[j [Hj [Hn ->]]]]]];
      rewrite Hb in Ht; injection Ht as <-; [auto|].
    split; [|split; [apply Forall_app; split; [exact Hlt|constructor; [exact Hj|constructor]]|exact Hlen]].
    apply (Permutation_NoDup (Permutation_cons_append (badLeaves s) j)).
    constructor; [|exact Hnd].
    intros Hin. apply set_has_In in Hin. congruence.
  - unfold onClick. destruct (set_has i (badLeaves s)); simpl; [|auto].
    rewrite LeavesFacts.length_api_start. auto.
  - unfold fire_first. destruct (pending s) as [|[due i] rest]; [auto|].
    unfold regrow. simpl. rewrite LeavesFacts.length_api_start.
    split; [apply NoDup_filter; exact Hnd|].
    split; [|exact Hlen].
    rewrite Forall_forall in *. intros x Hx. apply filter_In in Hx. apply Hlt, Hx.
  - rewrite Hl. auto.
Qed.

(** In every reachable scene state the unhealthy set has no duplicate,
    holds only leaf indices below 7, so it has at most 7 elements, and
    there are always 7 springs. *)
Theorem leaf_state_invariant s :
  lreach s ->
  NoDup (badLeaves s) /\ Forall (fun i => (i < 7)%nat) (badLeaves s) /\
  (length (badLeaves s) <= 7)%nat /\ length (springs s) = 7%nat.
Proof.
  intros Hr.
  assert (H : NoDup (badLeaves s) /\ Forall (fun i => (i < 7)%nat) (badLeaves s) /\
              length (springs s) = 7%nat).
  { induction Hr as [|s s' _ IH Hs].
    - split; [constructor|]. split; [constructor|reflexivity].
    - exact (leaf_inv_step s s' IH Hs). }
  destruct H as [Hnd [Hlt Hlen]].
  split; [exact Hnd|]. split; [exact Hlt|]. split; [|exact Hlen].
  rewrite <- (length_seq 7 0). apply NoDup_incl_length; [exact Hnd|].
  intros x Hx. rewrite Forall_forall in Hlt. apply in_seq. specialize (Hlt x Hx). lia.
Qed.

Lemma leaf_state_invariant_witness :
  lreach (onClick 0 (scene [])) /\ (length (badLeaves (onClick 0 (scene []))) <= 7)%nat.
Proof.
  assert (H : lreach (onClick 0 (scene []))).
  { eapply lreach_step; [apply lreach_init|apply ls_click]. }
  split; [exact H|]. exact (proj1 (proj2 (proj2 (leaf_state_invariant _ H)))).
Defined.

Lemma set_has_delete_other i j st :
  j <> i -> set_has j (set_delete i st) = set_has j st.
Proof.
  intros Hne. unfold set_has, set_delete. induction st as [|x st IH]; [reflexivity|].
  simpl. destruct (Nat.eqb x i) eqn:E; simpl.
  - apply Nat.eqb_eq in E. subst x.
    replace (Nat.eqb j i) with false by (symmetry; apply Nat.eqb_neq; exact Hne).
    exact IH.
  - rewrite IH. reflexivity.
Qed.

Lemma api_start_other i j c sps :
  j <> i ->
  nth_error (api_start (fun idx => if Nat.eqb idx i then Some c else None) sps) j
  = nth_error sps j.
Proof.
  intros Hne. rewrite LeavesFacts.nth_error_api_start.
  replace (Nat.eqb j i) with false by (symmetry; apply Nat.eqb_neq; exact Hne).
  destruct (nth_error sps j); reflexivity.
Qed.

(** A prune of leaf [i] (the click and its 600ms regrow) touches no other
    leaf: every other leaf keeps its spring and its health. *)
Theorem prune_is_local i j s :
  j <> i ->
  nth_error (springs (onClick i s)) j = nth_error (springs s) j /\
  set_has j (badLeaves (onClick i s)) = set_has j (badLeaves s) /\
  nth_error (springs (regrow i s)) j = nth_error (springs s) j /\
  set_has j (badLeaves (regrow i s)) = set_has j (badLeaves s).
Proof.
  intros Hne. unfold onClick, regrow.
  split; [destruct (set_has i (badLeaves s)); simpl; [apply api_start_other; exact Hne|reflexivity]|].
  split; [destruct (set_has i (badLeaves s)); reflexivity|].
  simpl. split; [apply api_start_other; exact Hne|apply set_has_delete_other; exact Hne].
Qed.

Lemma prune_is_local_witness :
  (1 <> 0)%nat /\
  nth_error (springs (regrow 0 (scene [0; 1]%nat))) 1 = nth_error (springs (scene [0; 1]%nat)) 1 /\
  set_has 1 (badLeaves (regrow 0 (scene [0; 1]%nat))) = true.
Proof.
  assert (H : (1 <> 0)%nat) by discriminate.
  destruct (prune_is_local 0 1 (scene [0; 1]%nat) H) as [_ [_ [A B]]].
  split; [exact H|]. split; [exact A|]. rewrite B. reflexivity.
Defined.

Lemma healthy_sum_bounds l bad i n :
  (forall k, 0 <= nth k l 0 /\ nth k l 0 <= 1) ->
  0 <= healthy_sum l bad i n /\ healthy_sum l bad i n <= inject_Z (Z.of_nat n).
Proof.
  intros Hl. revert i. induction n as [|n IH]; intros i; cbn [healthy_sum].
  - change (inject_Z (Z.of_nat 0)) with 0. split; lra.
  - destruct (IH (S i)) as [A B]. rewrite MoistureFacts.nat_Q_succ.
    destruct (set_has i bad); [split; lra|]. destruct (Hl i). split; lra.
Qed.

Lemma healthy_sum_antitone l bad bad' i n :
  (forall k, 0 <= nth k l 0) ->
  (forall k, set_has k bad = true -> set_has k bad' = true) ->
  healthy_sum l bad' i n <= healthy_sum l bad i n.
Proof.
  intros Hl Hsub. revert i. induction n as [|n IH]; intros i; simpl; [lra|].
  specialize (IH (S i)). specialize (Hl i).
  destruct (set_has i bad) eqn:E; [rewrite (Hsub i E); lra|].
  destruct (set_has i bad'); lra.
Qed.

Lemma healthy_sum_all_bad l bad i n :
  (forall k, (i <= k < i + n)%nat -> set_has k bad = true) -> healthy_sum l bad i n == 0.
Proof.
  revert i. induction n as [|n IH]; intros i H; simpl; [reflexivity|].
  rewrite (H i) by lia. rewrite IH by (intros k Hk; apply H; lia). reflexivity.
Qed.

Lemma growthLevel_sum sps bad :
  growthLevel sps bad == healthy_sum (map value sps) bad 0 7 * (1 # 7).
Proof.
  unfold growthLevel, leafCount. rewrite LeavesFacts.growth_fold.
  unfold Qdiv. change (/ inject_Z 7) with (1 # 7). ring.
Qed.

(** When every spring value lies in [0, 1], the growth level lies in
    [0, 1], marking more leaves unhealthy never raises it, and it is 0
    once all 7 leaves are unhealthy. *)
Theorem growth_level_bounds sps bad :
  Forall (fun sp => 0 <= value sp /\ value sp <= 1) sps ->
  0 <= growthLevel sps bad /\ growthLevel sps bad <= 1 /\
  (forall bad', (forall k, set_has k bad = true -> set_has k bad' = true) ->
                growthLevel sps bad' <= growthLevel sps bad) /\
  ((forall k, (k < 7)%nat -> set_has k bad = true) -> growthLevel sps bad == 0).
Proof.
  intros Hf.
  assert (Hl : forall k, 0 <= nth k (map value sps) 0 /\ nth k (map value sps) 0 <= 1).
  { intros k. destruct (nth_in_or_default k (map value sps) 0) as [Hin| ->]; [|split; lra].
    apply in_map_iff in Hin. destruct Hin as [sp [<- Hsp]].
    rewrite Forall_forall in Hf. exact (Hf sp Hsp). }
  destruct (healthy_sum_bounds (map value sps) bad 0 7 Hl) as [A B].
  change (inject_Z (Z.of_nat 7)) with (7 # 1) in B.
  rewrite !growthLevel_sum.
  split; [lra|]. split; [lra|]. split.
  - intros bad' Hsub. rewrite !growthLevel_sum.
    pose proof (healthy_sum_antitone (map value sps) bad bad' 0 7
                  (fun k => proj1 (Hl k)) Hsub). apply Qmult_le_compat_r; [exact H|discriminate].
  - intros Hall. rewrite healthy_sum_all_bad by (intros k Hk; apply Hall; lia). ring.
Qed.

Lemma growth_level_bounds_witness :
  Forall (fun sp => 0 <= value sp /\ value sp <= 1) useSprings_init /\
  growthLevel useSprings_init [0; 3]%nat <= 1.
Proof.
  assert (H : Forall (fun sp => 0 <= value sp /\ value sp <= 1) useSprings_init).
  { repeat constructor; unfold Qle; simpl; lia. }
  split; [exact H|]. exact (proj1 (proj2 (growth_level_bounds _ [0; 3]%nat H))).
Defined.

End LeafRunFacts.

Module GestureRunFacts.
Import Gesture GestureRun.

Lemma up_fields s :
  holding (handlePlantAreaPointerUp s) = false /\
  watering (handlePlantAreaPointerUp s) = false /\
  showWaterEffect (handlePlantAreaPointerUp s)
    = (if watering s then false else showWaterEffect s) /\
  holdTimeout (handlePlantAreaPointerUp s) = holdTimeout s /\
  wateringTimeout (handlePlantAreaPointerUp s) = wateringTimeout s /\
  next_id (handlePlantAreaPointerUp s) = next_id s /\
  timers (handlePlantAreaPointerUp s)
    = drop (wateringTimeout s) (drop (holdTimeout s) (timers s)).
Proof.
  destruct s as [h w sh [ho|] [wo|] ts n c]; destruct w; repeat split.
Qed.

Lemma leave_is_up s : handlePlantAreaPointerLeave s = handlePlantAreaPointerUp s.
Proof. reflexivity. Qed.

Lemma down_fields s :
  holding (handlePlantAreaPointerDown s) = true /\
  watering (handlePlantAreaPointerDown s) = watering s /\
  showWaterEffect (handlePlantAreaPointerDown s) = showWaterEffect s /\
  holdTimeout (handlePlantAreaPointerDown s) = Some (next_id s) /\
  wateringTimeout (handlePlantAreaPointerDown s) = wateringTimeout s /\
  next_id (handlePlantAreaPointerDown s) = S (next_id s) /\
  timers (handlePlantAreaPointerDown s)
    = drop (wateringTimeout s) (timers s) ++ [mkTimer (next_id s) (clock s + 1000) HoldFire].
Proof.
  destruct s as [h w sh ho [wo|] ts n c]; repeat split.
Qed.

Lemma fire_fields tm s :
  let rest := filter (fun x => negb (Nat.eqb (t_id x) (t_id tm))) (timers s) in
  match t_cb tm with
  | HoldFire =>
      watering (fire tm s) = true /\ showWaterEffect (fire tm s) = true /\
      wateringTimeout (fire tm s) = Some (next_id s) /\
      next_id (fire tm s) = S (next_id s) /\
      timers (fire tm s) = rest ++ [mkTimer (next_id s) (t_due tm + 1200) SessionEnd]
  | SessionEnd =>
      watering (fire tm s) = false /\ showWaterEffect (fire tm s) = false /\
      wateringTimeout (fire tm s) = wateringTimeout s /\
      next_id (fire tm s) = next_id s /\ timers (fire tm s) = rest
  end.
Proof.
  destruct tm as [id due []]; destruct s; repeat split.
Qed.

Lemma In_drop o ts tm : In tm (drop o ts) -> In tm ts.
Proof. destruct o; simpl; [|auto]. intros H. apply filter_In in H. apply H. Qed.

Lemma drop_keeps o ts tm : In tm ts -> o <> Some (t_id tm) -> In tm (drop o ts).
Proof.
  intros H Hne. destruct o as [id|]; simpl; [|exact H].
  apply filter_In. split; [exact H|].
  destruct (Nat.eqb (t_id tm) id) eqn:E; [|reflexivity].
  apply Nat.eqb_eq in E. subst. contradiction.
Qed.

Lemma drop_removes o ts tm : In tm (drop o ts) -> o <> Some (t_id tm).
Proof.
  destruct o as [id|]; simpl; [|discriminate].
  intros H. apply filter_In in H. destruct H as [_ H].
  intros E. injection E as ->. rewrite Nat.eqb_refl in H. discriminate.
Qed.

Lemma ginv_init : ginv init.
Proof. repeat split; simpl; intros; try contradiction; discriminate. Qed.

Lemma ginv_clock t s : ginv s -> ginv (set_clock t s).
Proof. destruct s; exact (fun H => H). Qed.

Lemma ginv_up s : ginv s -> ginv (handlePlantAreaPointerUp s).
Proof.
  intros [Hs [Hid Hw]].
  destruct (up_fields s) as [_ [W [S [_ [T [N Ts]]]]]].
  split; [rewrite S, W; destruct (watering s); [reflexivity|exact Hs]|].
  rewrite T, N, Ts. split.
  - intros tm H. apply Hid. apply In_drop, In_drop in H. exact H.
  - intros w Hw'. destruct (Hw w Hw') as [A B]. split; [exact A|].
    intros tm H. apply B. apply In_drop, In_drop in H. exact H.
Qed.

Lemma ginv_down s : ginv s -> ginv (handlePlantAreaPointerDown s).
Proof.
  intros [Hs [Hid Hw]].
  destruct (down_fields s) as [_ [W [S [_ [T [N Ts]]]]]].
  split; [rewrite S, W; exact Hs|].
  rewrite T, N, Ts. split.
  - intros tm H. apply in_app_iff in H. destruct H as [H|[<-|[]]].
    + apply In_drop, Hid in H. lia.
    + simpl. lia.
  - intros w Hw'. destruct (Hw w Hw') as [A B]. split; [lia|].
    intros tm H E. apply in_app_iff in H. destruct H as [H|[<-|[]]].
    + apply B; [apply In_drop in H; exact H|exact E].
    + simpl in E. lia.
Qed.

Lemma ginv_fire tm s : ginv s -> ginv (fire tm s).
Proof.
  intros [Hs [Hid Hw]]. pose proof (fire_fields tm s) as F. simpl in F.
  destruct (t_cb tm) eqn:Ecb.
  - destruct F as [W [S [T [N Ts]]]].
    split; [rewrite S, W; reflexivity|]. rewrite N, Ts, T. split.
    + intros x H. apply in_app_iff in H. destruct H as [H|[<-|[]]].
      * apply filter_In in H. pose proof (Hid _ (proj1 H)). lia.
      * simpl. lia.
    + intros w Ew. injection Ew as <-. split; [lia|].
      intros x H E. apply in_app_iff in H. destruct H as [H|[<-|[]]].
      * apply filter_In in H. pose proof (Hid _ (proj1 H)). lia.
      * reflexivity.
  - destruct F as [W [S [T [N Ts]]]].
    split; [rewrite S, W; reflexivity|]. rewrite N, Ts, T. split.
    + intros x H. apply filter_In in H. apply Hid, H.
    + intros w Ew. destruct (Hw w Ew) as [A B]. split; [exact A|].
      intros x H E. apply filter_In in H. apply B; [apply H|exact E].
Qed.

Lemma greach_ginv s : greach s -> ginv s.
Proof.
  induction 1 as [|s t e _ IH|s tm _ IH _].
  - exact ginv_init.
  - apply ginv_clock with (t := t) in IH.
    destruct e; simpl; [apply ginv_down|apply ginv_up|rewrite leave_is_up; apply ginv_up]; exact IH.
  - apply ginv_fire, IH.
Qed.

(** In every reachable gesture state the watering effect is shown exactly
    while watering; pointer-up or pointer-leave then ends any session:
    afterwards holding, watering and the effect are all off, and neither
    the recorded hold timer nor the recorded session timer is pending. *)
Theorem release_ends_session s :
  greach s ->
  showWaterEffect s = watering s /\
  forall e, e = Up \/ e = Leave ->
    holding (handle e s) = false /\ watering (handle e s) = false /\
    showWaterEffect (handle e s) = false /\
    forall tm, In tm (timers (handle e s)) ->
      holdTimeout s <> Some (t_id tm) /\ wateringTimeout s <> Some (t_id tm).
Proof.
  intros Hr. destruct (greach_ginv s Hr) as [Hs _].
  split; [exact Hs|].
  intros e He.
  assert (Hu : handle e s = handlePlantAreaPointerUp s)
    by (destruct He as [-> | ->]; [reflexivity|apply leave_is_up]).
  rewrite Hu.
  destruct (up_fields s) as [H [W [S [_ [_ [_ Ts]]]]]].
  split; [exact H|]. split; [exact W|].
  split; [rewrite S, Hs; destruct (watering s); reflexivity|].
  intros tm Hin. rewrite Ts in Hin.
  split; [apply In_drop, drop_removes in Hin|apply drop_removes in Hin]; exact Hin.
Qed.

Lemma release_ends_session_witness :
  greach (handle Down (set_clock 0 init)) /\
  watering (handle Up (handle Down (set_clock 0 init))) = false.
Proof.
  assert (H : greach (handle Down (set_clock 0 init))) by (apply greach_event, greach_init).
  split; [exact H|].
  exact (proj1 (proj2 (proj2 (release_ends_session _ H) Up (or_introl eq_refl)))).
Defined.

(** Pointer-down never cancels a pending hold timer (it clears only the
    session timer), and pointer-up or leave cancels only the hold timer
    recorded by the latest pointer-down: after two pointer-downs, the
    first hold timer stays pending through the release and still fires. *)
Theorem down_keeps_hold_timers s tm :
  greach s -> In tm (timers s) -> t_cb tm = HoldFire ->
  In tm (timers (handlePlantAreaPointerDown s)) /\
  (holdTimeout s <> Some (t_id tm) ->
     In tm (timers (handlePlantAreaPointerUp s)) /\
     In tm (timers (handlePlantAreaPointerLeave s))).
Proof.
  intros Hr Hin Hcb. destruct (greach_ginv s Hr) as [_ [_ Hw]].
  assert (Hnw : wateringTimeout s <> Some (t_id tm)).
  { intros E. destruct (Hw _ E) as [_ B]. rewrite (B tm Hin eq_refl) in Hcb. discriminate. }
  split.
  - destruct (down_fields s) as [_ [_ [_ [_ [_ [_ Ts]]]]]]. rewrite Ts.
    apply in_or_app. left. apply drop_keeps; assumption.
  - intros Hnh. change (handlePlantAreaPointerLeave s) with (handlePlantAreaPointerUp s).
    destruct (up_fields s) as [_ [_ [_ [_ [_ [_ Ts]]]]]]. rewrite Ts.
    assert (K : In tm (drop (wateringTimeout s) (drop (holdTimeout s) (timers s))))
      by (apply drop_keeps; [apply drop_keeps|]; assumption).
    split; exact K.
Qed.

Lemma down_keeps_hold_timers_witness :
  greach (handle Down (set_clock 500 (handle Down (set_clock 0 init)))) /\
  In (mkTimer 1 1000 HoldFire)
     (timers (handle Down (set_clock 500 (handle Down (set_clock 0 init))))) /\
  In (mkTimer 1 1000 HoldFire)
     (timers (handlePlantAreaPointerUp
                (handle Down (set_clock 500 (handle Down (set_clock 0 init)))))).
Proof.
  assert (H : greach (handle Down (set_clock 500 (handle Down (set_clock 0 init)))))
    by (apply greach_event, greach_event, greach_init).
  assert (I : In (mkTimer 1 1000 HoldFire)
                (timers (handle Down (set_clock 500 (handle Down (set_clock 0 init))))))
    by (simpl; auto).
  split; [exact H|]. split; [exact I|].
  apply (proj2 (down_keeps_hold_timers _ _ H I eq_refl)). simpl. discriminate.
Defined.

End GestureRunFacts.
